(** * Chesster: timers, the human move source and the command line driver

    A shallow embedding of
      - [chesster/timer/basic.py]   ([BasicTimer]),
      - [chesster/ai/human.py]      ([Human.make_move]),
      - [chesster/cli/__init__.py]  ([main], [cli_interface]),
    together with the parts of the match engine and of the timer base
    class that the repository keeps in other modules and that are modelled
    here from the written specification.

    Seconds are Python floats in the program.  They are modelled as exact
    rationals, and [np.inf] as a separate constructor, so that every
    comparison and subtraction on a remaining budget is written out. *)

From Stdlib Require Import ZArith QArith Qminmax List String Bool Lia.
From stdpp Require Import gmap strings.
Import ListNotations.

Close Scope Q_scope.
Open Scope string_scope.
Open Scope list_scope.

(** ** Python exceptions and results *)

Module Py.

(** The exception classes that the three source files raise, catch or
    let through. *)
Inductive exn : Type :=
| KeyError (key : string)
| ValueError (msg : string)
| EOFError
| PermissionError (msg : string)
| FileExistsError (msg : string)
| NonExistentAI (name : string)
| NonExistentTimer (name : string)
| NonExistentMatch (name : string).

(** A call either returns a value or raises. *)
Inductive res (A : Type) : Type :=
| Ok (a : A)
| Raise (e : exn).
Arguments Ok {A} a.
Arguments Raise {A} e.

(** [d[k]] on a dict: a missing key raises [KeyError]. *)
Definition getitem {V} (d : gmap string V) (k : string) : res V :=
  match d !! k with
  | Some v => Ok v
  | None => Raise (KeyError k)
  end.

(** [try: c  except KeyError: raise e]. *)
Definition except_KeyError {A} (c : res A) (e : exn) : res A :=
  match c with
  | Raise (KeyError _) => Raise e
  | r => r
  end.

Definition is_ValueError (e : exn) : bool :=
  match e with ValueError _ => true | _ => false end.

End Py.

(** ** Timers *)

Module Timer.

(** [seconds_left] is a float that may be [np.inf]. *)
Inductive Seconds : Type :=
| Finite (q : Q)
| Unbounded.

(** The attributes of a timer object. *)
Record Timer : Type := mkTimer {
  time_clocked : Q;
  seconds_left : Seconds;
  increment : Q
}.

(** Modelled from the spec: [BaseTimer.__init__(seconds_left, increment)]
    of [chesster/timer/base.py], which is not among the source files.
    A timer is created with a starting budget and an increment and has
    consumed no time yet. *)
Definition BaseTimer_init (budget : Seconds) (incr : Q) : Timer :=
  {| time_clocked := 0; seconds_left := budget; increment := incr |}.

(** [BasicTimer.__init__(self, *args)]: the arguments are dropped and
    the base class is initialised with [np.inf] and [0]. *)
Definition BasicTimer_init (args : list Q) : Timer :=
  BaseTimer_init Unbounded 0.

(** Modelled from the spec: the update operation of the timer base class
    ([chesster/timer/base.py], not among the source files).  Given the
    elapsed decision seconds [e], [time_clocked += e]; a finite
    [seconds_left] becomes [max(0, seconds_left - e) + increment] when
    the move completes before expiry and is pinned at [0] when
    [e >= seconds_left]; an unbounded budget is never decremented. *)
Definition update (t : Timer) (e : Q) : Timer :=
  {| time_clocked := (time_clocked t + e)%Q;
     seconds_left :=
       match seconds_left t with
       | Unbounded => Unbounded
       | Finite r =>
           if Qle_bool r e then Finite 0
           else Finite (Qmax 0 (r - e) + increment t)%Q
       end;
     increment := increment t |}.

(** Modelled from the spec: a timer is in the forfeiting state once its
    remaining budget, a finite value, has reached zero. *)
Definition forfeited (t : Timer) : bool :=
  match seconds_left t with
  | Unbounded => false
  | Finite r => Qle_bool r 0
  end.

(** The timer after a sequence of moves with the given elapsed times. *)
Definition updates (t : Timer) (es : list Q) : Timer :=
  fold_left update es t.

Lemma update_unbounded t e :
  seconds_left t = Unbounded -> seconds_left (update t e) = Unbounded.
Proof. intros H. unfold update. simpl. now rewrite H. Qed.

Lemma updates_unbounded es : forall t,
  seconds_left t = Unbounded -> seconds_left (updates t es) = Unbounded.
Proof.
  induction es as [|e es IH]; intros t H; [exact H|].
  apply IH, update_unbounded, H.
Qed.

Lemma updates_increment es : forall t, increment (updates t es) = increment t.
Proof.
  induction es as [|e es IH]; intros t; [reflexivity|].
  simpl. now rewrite IH.
Qed.

Lemma updates_time_clocked es : forall t,
  time_clocked (updates t es) = fold_left Qplus es (time_clocked t).
Proof.
  induction es as [|e es IH]; intros t; [reflexivity|].
  simpl. now rewrite IH.
Qed.

(** C6. A [BasicTimer], whatever arguments it is constructed with, stays
    unbounded under every sequence of updates: for every list of elapsed
    times, and after every prefix of it, the remaining budget is still
    [np.inf] (so it is never zero and the timer is never in the
    forfeiting state), the increment is still [0], and the only
    attribute that has changed is [time_clocked], which holds the
    elapsed times added up in order. *)
Theorem BasicTimer_never_forfeits (args es : list Q) :
  let t := updates (BasicTimer_init args) es in
  seconds_left t = Unbounded
  /\ seconds_left t <> Finite 0
  /\ forfeited t = false
  /\ increment t = 0%Q
  /\ time_clocked t = fold_left Qplus es 0%Q
  /\ forall e, seconds_left (update t e) = seconds_left t
               /\ time_clocked (update t e) = (time_clocked t + e)%Q.
Proof.
  intros t.
  assert (Hs : seconds_left t = Unbounded)
    by (apply updates_unbounded; reflexivity).
  repeat split.
  - exact Hs.
  - rewrite Hs. discriminate.
  - unfold forfeited. now rewrite Hs.
  - unfold t. now rewrite updates_increment.
  - unfold t. now rewrite updates_time_clocked.
  - rewrite Hs. now apply update_unbounded.
Qed.

Lemma Qmax_0_pos (x : Q) : (0 < x)%Q -> Qmax 0 x = x.
Proof.
  intros H. unfold Qmax, GenericMinMax.gmax.
  destruct (Qcompare 0 x) eqn:E; [| reflexivity |].
  - apply Qeq_alt in E. rewrite <- E in H. now apply Qlt_irrefl in H.
  - apply Qgt_alt in E. exfalso. exact (Qlt_irrefl _ (Qlt_trans _ _ _ H E)).
Qed.

(** C7. For a timer whose remaining budget is the finite value [r] and
    whose increment is [I], an update with elapsed seconds [e] adds [e]
    to [time_clocked], leaves the increment alone, sets the remaining
    budget to [r - e + I] when [e < r], and pins it to [0], without the
    increment, when [e >= r]. *)
Theorem update_finite (t : Timer) (r e : Q) :
  seconds_left t = Finite r ->
  time_clocked (update t e) = (time_clocked t + e)%Q
  /\ increment (update t e) = increment t
  /\ ((e < r)%Q ->
      seconds_left (update t e) = Finite (r - e + increment t)%Q)
  /\ ((r <= e)%Q -> seconds_left (update t e) = Finite 0).
Proof.
  intros Hr. split; [reflexivity|]. split; [reflexivity|].
  unfold update; simpl; rewrite Hr. split; intros H.
  - destruct (Qle_bool r e) eqn:E.
    + apply Qle_bool_iff in E. exfalso. exact (Qlt_not_le _ _ H E).
    + rewrite Qmax_0_pos; [reflexivity|].
      unfold Qminus. rewrite <- Qlt_minus_iff. exact H.
  - apply Qle_bool_iff in H. now rewrite H.
Qed.

(** A ten minute budget with a two second increment: a move of 30
    seconds leaves 572 seconds, a move of 700 seconds leaves 0. *)
Lemma update_finite_witness :
  let t := mkTimer 0 (Finite 600) 2 in
  seconds_left (update t 30) = Finite (600 - 30 + 2)%Q
  /\ time_clocked (update t 30) = (0 + 30)%Q
  /\ seconds_left (update t 700) = Finite 0.
Proof.
  intros t. split; [|split].
  - apply (update_finite t 600 30 eq_refl). reflexivity.
  - apply (update_finite t 600 30 eq_refl).
  - apply (update_finite t 600 700 eq_refl). unfold Qle; simpl; lia.
Defined.

End Timer.

(** ** The human move source *)

Module Human.
Import Py Timer.

(** What [make_move] writes to the terminal: the prompt of [input] (no
    newline) and the lines of [print]. *)
Inductive Out : Type :=
| Prompt (s : string)
| Line (s : string).

Section Oracle.

(** The rules oracle ([chess.Board], [chess.Move]) is a dependency of
    the program; it is taken as it is used. *)
Variable Board : Type.
Variable Move : Type.
(** [chess.Move.null()] *)
Variable null : Move.
(** [bool(move)] *)
Variable truthy : Move -> bool.
(** [chess.Move.from_uci(uci)], which raises on text that is not UCI *)
Variable from_uci : string -> res Move.
(** [board.is_legal(move)] *)
Variable is_legal : Board -> Move -> bool.
(** how an f-string renders [timer.seconds_left] *)
Variable str_seconds : Seconds -> string.

(** The null move is falsy, as python-chess documents it. *)
Hypothesis null_falsy : truthy null = false.

(** The objects [make_move] can reach: its two arguments and the
    terminal it writes to. *)
Record World : Type := mkWorld {
  board : Board;
  timer : Timer;
  stdout : list Out
}.

Definition write (o : Out) (w : World) : World :=
  {| board := board w; timer := timer w; stdout := stdout w ++ [o] |}.

(** [print(s)] *)
Definition print (s : string) (w : World) : World := write (Line s) w.

(** [board.is_legal(move)], a query on the board of the world *)
Definition board_is_legal (m : Move) (w : World) : World * bool :=
  (w, is_legal (board w) m).

(** [print(f"{timer.seconds_left} seconds left")] *)
Definition print_seconds_left (w : World) : World :=
  print (str_seconds (seconds_left (timer w)) +:+ " seconds left") w.

Definition prompt_text : string := "Select move in UCI format: ".

(** The [try] statement of the loop body, entered with the text read
    and the current value of the variable [move]; it yields the new
    value of [move], or the exception that leaves the statement. *)
Definition attempt (uci : string) (move : Move) (w : World)
  : World * res Move :=
  match from_uci uci with
  | Ok m =>
      let '(w1, legal) := board_is_legal m w in
      if negb legal then
        let w2 := print "Illegal move, try again." w1 in
        let w3 := print_seconds_left w2 in
        (w3, Ok null)
      else (w1, Ok m)
  | Raise e =>
      if is_ValueError e then
        let w1 := print "Incorrect UCI format, try again" w in
        let w2 := print_seconds_left w1 in
        (w2, Ok move)
      else (w, Raise e)
  end.

(** [while not bool(move): ...], run on the lines that standard input
    still holds.  [input] writes the prompt and takes the next line;
    at end of input it raises [EOFError].  The result is the final
    world, the unread lines and the returned move or the exception. *)
Fixpoint loop (stdin : list string) (move : Move) (w : World)
  : World * list string * res Move :=
  if truthy move then (w, stdin, Ok move)
  else
    match stdin with
    | [] => (write (Prompt prompt_text) w, [], Raise EOFError)
    | uci :: rest =>
        match attempt uci move (write (Prompt prompt_text) w) with
        | (w', Ok move') => loop rest move' w'
        | (w', Raise e) => (w', rest, Raise e)
        end
    end.

(** [Human.make_move(board, timer)] *)
Definition make_move (w : World) (stdin : list string)
  : World * list string * res Move :=
  loop stdin null w.

(** The three components of a result of [make_move]. *)
Definition final_world (r : World * list string * res Move) : World :=
  fst (fst r).
Definition unread (r : World * list string * res Move) : list string :=
  snd (fst r).
Definition outcome (r : World * list string * res Move) : res Move :=
  snd r.

(** The world after a rejected line: the prompt, the message and the
    remaining time have been written, nothing else has changed. *)
Definition rejected (msg : string) (w : World) : World :=
  {| board := board w;
     timer := timer w;
     stdout := stdout w ++
       [Prompt prompt_text; Line msg;
        Line (str_seconds (seconds_left (timer w)) +:+ " seconds left")] |}.

(** *** One pass through the loop body *)

Lemma attempt_malformed uci msg move w :
  from_uci uci = Raise (ValueError msg) ->
  attempt uci move (write (Prompt prompt_text) w)
  = (rejected "Incorrect UCI format, try again" w, Ok move).
Proof.
  intros H. unfold attempt. rewrite H. simpl.
  unfold print_seconds_left, print, write, rejected. simpl.
  now rewrite <- !app_assoc.
Qed.

Lemma attempt_illegal uci m move w :
  from_uci uci = Ok m -> is_legal (board w) m = false ->
  attempt uci move (write (Prompt prompt_text) w)
  = (rejected "Illegal move, try again." w, Ok null).
Proof.
  intros H L. unfold attempt, board_is_legal. rewrite H. simpl.
  rewrite L. simpl.
  unfold print_seconds_left, print, write, rejected. simpl.
  now rewrite <- !app_assoc.
Qed.

Lemma attempt_legal uci m move w :
  from_uci uci = Ok m -> is_legal (board w) m = true ->
  attempt uci move w = (w, Ok m).
Proof.
  intros H L. unfold attempt, board_is_legal. rewrite H, L. reflexivity.
Qed.

(** The body never changes the board or the timer, it never lets a
    [ValueError] out, and the value it leaves in [move] is the old
    one, the null move, or a move the board accepts. *)
Lemma attempt_inv uci move w w' r :
  attempt uci move w = (w', r) ->
  board w' = board w /\ timer w' = timer w
  /\ match r with
     | Ok move' =>
         move' = move \/ move' = null
         \/ is_legal (board w) move' = true
     | Raise e => is_ValueError e = false /\ from_uci uci = Raise e
     end.
Proof.
  unfold attempt, board_is_legal.
  destruct (from_uci uci) as [m|e].
  - destruct (is_legal (board w) m) eqn:L; simpl;
      intros [= <- <-]; simpl; auto.
  - destruct (is_ValueError e) eqn:V; intros [= <- <-]; simpl; auto.
Qed.

(** *** The loop *)

Lemma loop_frame stdin : forall move w,
  board (final_world (loop stdin move w)) = board w
  /\ timer (final_world (loop stdin move w)) = timer w.
Proof.
  induction stdin as [|uci rest IH]; intros move w; simpl;
    destruct (truthy move); simpl; auto.
  destruct (attempt uci move (write (Prompt prompt_text) w))
    as [w' [move'|e]] eqn:A;
    apply attempt_inv in A; destruct A as (Hb & Ht & _); simpl in *.
  - destruct (IH move' w') as [Hb' Ht']. split; congruence.
  - auto.
Qed.

Lemma loop_returns stdin : forall move w w' rest m,
  (truthy move = true -> is_legal (board w) move = true) ->
  loop stdin move w = (w', rest, Ok m) ->
  is_legal (board w) m = true /\ truthy m = true.
Proof using null_falsy.
  induction stdin as [|uci rest0 IH]; intros move w w' rest m Hmove;
    simpl; destruct (truthy move) eqn:T.
  - intros [= <- <- <-]. auto.
  - discriminate.
  - intros [= <- <- <-]. auto.
  - destruct (attempt uci move (write (Prompt prompt_text) w))
      as [w1 [move'|e]] eqn:A; [|discriminate].
    apply attempt_inv in A. destruct A as (Hb & _ & Hm). simpl in Hb, Hm.
    intros L. apply IH in L; [now rewrite Hb in L|].
    intros T'. rewrite Hb.
    destruct Hm as [-> | [-> | Hm]]; [congruence | congruence | exact Hm].
Qed.

Lemma loop_raises stdin : forall move w w' rest e,
  loop stdin move w = (w', rest, Raise e) -> is_ValueError e = false.
Proof.
  induction stdin as [|uci rest0 IH]; intros move w w' rest e;
    simpl; destruct (truthy move); try discriminate.
  - now intros [= <- <- <-].
  - destruct (attempt uci move (write (Prompt prompt_text) w))
      as [w1 [move'|e']] eqn:A.
    + apply IH.
    + apply attempt_inv in A. destruct A as (_ & _ & V & _).
      now intros [= <- <- <-].
Qed.

(** Whatever is written is written after what was there. *)
Lemma attempt_stdout uci move w w' r :
  attempt uci move w = (w', r) -> exists o, stdout w' = stdout w ++ o.
Proof.
  unfold attempt, board_is_legal.
  destruct (from_uci uci) as [m|e].
  - destruct (is_legal (board w) m); simpl; intros [= <- <-]; simpl.
    + exists []. now rewrite app_nil_r.
    + rewrite <- !app_assoc. eauto.
  - destruct (is_ValueError e); intros [= <- <-]; simpl.
    + rewrite <- !app_assoc. eauto.
    + exists []. now rewrite app_nil_r.
Qed.

Lemma loop_stdout stdin : forall move w,
  exists out, stdout (final_world (loop stdin move w)) = stdout w ++ out.
Proof.
  induction stdin as [|uci rest IH]; intros move w; simpl;
    destruct (truthy move); unfold final_world; simpl;
    try (exists []; now rewrite app_nil_r).
  - now exists [Prompt prompt_text].
  - destruct (attempt uci move (write (Prompt prompt_text) w))
      as [w1 r] eqn:A.
    apply attempt_stdout in A. destruct A as [o Ho]. simpl in Ho.
    destruct r as [move'|e]; simpl.
    + destruct (IH move' w1) as [out Hout]. unfold final_world in Hout.
      rewrite Hout, Ho, <- !app_assoc. eauto.
    + rewrite Ho, <- !app_assoc. eauto.
Qed.

(** [make_move] always starts by prompting. *)
Lemma make_move_prompts w stdin :
  exists out,
    stdout (final_world (make_move w stdin))
    = stdout w ++ Prompt prompt_text :: out.
Proof using null_falsy.
  unfold make_move, final_world. destruct stdin as [|uci rest]; simpl;
    rewrite null_falsy; simpl.
  - now exists [].
  - destruct (attempt uci null (write (Prompt prompt_text) w))
      as [w1 r] eqn:A.
    apply attempt_stdout in A. destruct A as [o Ho]. simpl in Ho.
    destruct r as [move'|e]; simpl.
    + destruct (loop_stdout rest move' w1) as [out Hout].
      unfold final_world in Hout.
      rewrite Hout, Ho, <- !app_assoc. simpl. eauto.
    + rewrite Ho, <- !app_assoc. simpl. eauto.
Qed.

(** C3. Whenever [make_move] returns a move, on any board and any
    lines of input, that move is legal on the board it was given
    (which is also the board afterwards), it is truthy, and so it is
    not the null move. *)
Theorem make_move_returns_legal (w : World) (stdin : list string)
    (w' : World) (rest : list string) (m : Move) :
  make_move w stdin = (w', rest, Ok m) ->
  is_legal (board w) m = true
  /\ is_legal (board w') m = true
  /\ truthy m = true
  /\ m <> null.
Proof using null_falsy.
  intros H. unfold make_move in H.
  pose proof (loop_frame stdin null w) as [Hb _]. rewrite H in Hb.
  unfold final_world in Hb. simpl in Hb.
  apply loop_returns in H; [|rewrite null_falsy; discriminate].
  destruct H as [L T]. rewrite Hb. repeat split; auto.
  intros ->. congruence.
Qed.

(** C4. A line that does not parse as UCI is dealt with inside
    [make_move]: the [ValueError] is caught, the format message and
    the remaining time are printed, and [make_move] carries on
    exactly as if called afresh on the remaining input, which starts
    with a new prompt.  A line that parses to a move the board rejects
    is treated the same way with the illegal-move message.  No
    [ValueError] ever leaves [make_move]. *)
Theorem make_move_recovers (w : World) (uci : string)
    (rest : list string) :
  (forall msg, from_uci uci = Raise (ValueError msg) ->
     make_move w (uci :: rest)
     = make_move (rejected "Incorrect UCI format, try again" w) rest)
  /\ (forall m, from_uci uci = Ok m -> is_legal (board w) m = false ->
     make_move w (uci :: rest)
     = make_move (rejected "Illegal move, try again." w) rest)
  /\ (forall w0 stdin, exists out,
        stdout (final_world (make_move w0 stdin))
        = stdout w0 ++ Prompt prompt_text :: out)
  /\ (forall w0 stdin e,
        outcome (make_move w0 stdin) = Raise e ->
        is_ValueError e = false).
Proof using null_falsy.
  repeat split.
  - intros msg H. unfold make_move. simpl. rewrite null_falsy.
    now rewrite (attempt_malformed _ _ _ _ H).
  - intros m H L. unfold make_move. simpl. rewrite null_falsy.
    now rewrite (attempt_illegal _ _ _ _ H L).
  - intros w0 stdin. apply make_move_prompts.
  - intros w0 stdin e. unfold make_move, outcome.
    destruct (loop stdin null w0) as [[w1 rest1] r] eqn:L. simpl.
    intros ->. eapply loop_raises, L.
Qed.

(** C5. [make_move] leaves both of its arguments as they were: on
    every board, timer and input, whether it returns a move or is cut
    short by the end of the input, the board and the timer of the
    final world are those it was called with. *)
Theorem make_move_frame (w : World) (stdin : list string) :
  board (final_world (make_move w stdin)) = board w
  /\ timer (final_world (make_move w stdin)) = timer w.
Proof. apply loop_frame. Qed.

(** *** The loop over a whole input *)

(** A line that keeps the loop going: it does not parse (a
    [ValueError]), or it parses to a move the board rejects, or to a
    move that is falsy. *)
Definition skipped (b : Board) (uci : string) : bool :=
  match from_uci uci with
  | Ok m => negb (is_legal b m) || negb (truthy m)
  | Raise e => is_ValueError e
  end.

(** What reading one line puts on the terminal: the prompt, and for a
    line that is rejected the message and the remaining time. *)
Definition echo (w : World) (uci : string) : list Out :=
  Prompt prompt_text ::
  match from_uci uci with
  | Ok m =>
      if is_legal (board w) m then []
      else [Line "Illegal move, try again.";
            Line (str_seconds (seconds_left (timer w)) +:+ " seconds left")]
  | Raise e =>
      if is_ValueError e
      then [Line "Incorrect UCI format, try again";
            Line (str_seconds (seconds_left (timer w)) +:+ " seconds left")]
      else []
  end.

(** The world with more output and nothing else changed. *)
Definition wrote (out : list Out) (w : World) : World :=
  {| board := board w; timer := timer w; stdout := stdout w ++ out |}.

Definition is_Prompt (o : Out) : bool :=
  match o with Prompt _ => true | Line _ => false end.

(** The number of prompts in an output. *)
Definition prompts (out : list Out) : nat := length (filter is_Prompt out).

Lemma wrote_nil w : wrote [] w = w.
Proof. destruct w. unfold wrote. simpl. now rewrite app_nil_r. Qed.

Lemma wrote_wrote o1 o2 w : wrote o2 (wrote o1 w) = wrote (o1 ++ o2) w.
Proof. unfold wrote. simpl. now rewrite app_assoc. Qed.

Lemma write_wrote o w : write o w = wrote [o] w.
Proof. reflexivity. Qed.

Lemma echo_wrote o w uci : echo (wrote o w) uci = echo w uci.
Proof. reflexivity. Qed.

Lemma prompts_app o1 o2 : prompts (o1 ++ o2) = (prompts o1 + prompts o2)%nat.
Proof. unfold prompts. now rewrite filter_app, length_app. Qed.

Lemma prompts_echo w uci : prompts (echo w uci) = 1%nat.
Proof.
  unfold echo. destruct (from_uci uci) as [m|e].
  - now destruct (is_legal (board w) m).
  - now destruct (is_ValueError e).
Qed.

Lemma prompts_echoes w lines :
  prompts (flat_map (echo w) lines) = length lines.
Proof.
  induction lines as [|uci lines IH]; [reflexivity|].
  change (flat_map (echo w) (uci :: lines))
    with (echo w uci ++ flat_map (echo w) lines).
  rewrite prompts_app, prompts_echo, IH. reflexivity.
Qed.

(** One pass on a line that keeps the loop going. *)
Lemma attempt_skipped uci move w :
  truthy move = false -> skipped (board w) uci = true ->
  exists move', truthy move' = false
    /\ attempt uci move (write (Prompt prompt_text) w)
       = (wrote (echo w uci) w, Ok move').
Proof using null_falsy.
  intros T S. unfold skipped in S. unfold attempt, board_is_legal, echo.
  destruct (from_uci uci) as [m|e]; simpl in *.
  - destruct (is_legal (board w) m); simpl in *.
    + exists m. split; [now destruct (truthy m)|reflexivity].
    + exists null. split; [exact null_falsy|].
      unfold print_seconds_left, print, write, wrote. simpl.
      now rewrite <- !app_assoc.
  - rewrite S. exists move. split; [exact T|].
    unfold print_seconds_left, print, write, wrote. simpl.
    now rewrite <- !app_assoc.
Qed.

(** The loop runs through a stretch of such lines, writing their echoes. *)
Lemma loop_skipped pre : forall move w rest,
  truthy move = false -> forallb (skipped (board w)) pre = true ->
  exists move', truthy move' = false
    /\ loop (pre ++ rest) move w
       = loop rest move' (wrote (flat_map (echo w) pre) w).
Proof using null_falsy.
  induction pre as [|uci pre IH]; intros move w rest T S.
  - exists move. simpl. now rewrite wrote_nil.
  - simpl in S. apply andb_true_iff in S. destruct S as [S1 S2].
    destruct (attempt_skipped uci move w T S1) as (move1 & T1 & A).
    destruct (IH move1 (wrote (echo w uci) w) rest T1 S2) as (move2 & T2 & L).
    exists move2. split; [exact T2|].
    simpl. rewrite T, A, L, wrote_wrote. reflexivity.
Qed.

Lemma loop_end_of_input move w :
  truthy move = false ->
  loop [] move w = (wrote [Prompt prompt_text] w, [], Raise EOFError).
Proof. intros T. simpl. now rewrite T. Qed.

Lemma loop_accepts uci post move m w :
  truthy move = false ->
  from_uci uci = Ok m -> is_legal (board w) m = true -> truthy m = true ->
  loop (uci :: post) move w = (wrote [Prompt prompt_text] w, post, Ok m).
Proof.
  intros T P L Tm. simpl. rewrite T.
  rewrite (attempt_legal uci m move (write (Prompt prompt_text) w) P L).
  destruct post; simpl; now rewrite Tm.
Qed.

Lemma loop_crashes uci post move e w :
  truthy move = false ->
  from_uci uci = Raise e -> is_ValueError e = false ->
  loop (uci :: post) move w = (wrote [Prompt prompt_text] w, post, Raise e).
Proof.
  intros T P V. simpl. rewrite T. unfold attempt. now rewrite P, V.
Qed.

(** Every input is a stretch of lines that keep the loop going, followed
    by nothing or by a first line that does not. *)
Lemma first_not_skipped b (stdin : list string) :
  forallb (skipped b) stdin = true
  \/ exists pre uci post,
       stdin = pre ++ uci :: post
       /\ forallb (skipped b) pre = true /\ skipped b uci = false.
Proof.
  induction stdin as [|x stdin IH]; [now left|].
  destruct (skipped b x) eqn:S.
  - destruct IH as [IH|(pre & uci & post & -> & Hpre & Huci)].
    + left. simpl. now rewrite S.
    + right. exists (x :: pre), uci, post. simpl. rewrite S. auto.
  - right. exists [], x, stdin. auto.
Qed.

(** The whole behaviour of the loop from a falsy [move], by cases on the
    first line that does not keep it going. *)
Lemma loop_by_cases stdin move w :
  truthy move = false ->
  (forallb (skipped (board w)) stdin = true
   /\ loop stdin move w
      = (wrote (flat_map (echo w) stdin ++ [Prompt prompt_text]) w,
         [], Raise EOFError))
  \/ (exists pre uci post m,
        stdin = pre ++ uci :: post
        /\ forallb (skipped (board w)) pre = true
        /\ from_uci uci = Ok m /\ is_legal (board w) m = true
        /\ truthy m = true
        /\ loop stdin move w
           = (wrote (flat_map (echo w) pre ++ [Prompt prompt_text]) w,
              post, Ok m))
  \/ (exists pre uci post e,
        stdin = pre ++ uci :: post
        /\ forallb (skipped (board w)) pre = true
        /\ from_uci uci = Raise e /\ is_ValueError e = false
        /\ loop stdin move w
           = (wrote (flat_map (echo w) pre ++ [Prompt prompt_text]) w,
              post, Raise e)).
Proof using null_falsy.
  intros T.
  destruct (first_not_skipped (board w) stdin)
    as [S|(pre & uci & post & -> & Spre & Suci)].
  - left. split; [exact S|].
    destruct (loop_skipped stdin move w [] T S) as (move' & T' & L).
    rewrite app_nil_r in L. rewrite L, (loop_end_of_input _ _ T').
    now rewrite wrote_wrote.
  - destruct (loop_skipped pre move w (uci :: post) T Spre)
      as (move' & T' & L).
    unfold skipped in Suci.
    destruct (from_uci uci) as [m|e] eqn:P.
    + apply orb_false_iff in Suci. destruct Suci as [Sl St].
      apply negb_false_iff in Sl, St.
      right. left. exists pre, uci, post, m.
      repeat (split; [assumption || reflexivity|]).
      rewrite L, (loop_accepts uci post move' m
                    (wrote (flat_map (echo w) pre) w) T' P Sl St).
      now rewrite wrote_wrote.
    + right. right. exists pre, uci, post, e.
      repeat (split; [assumption || reflexivity|]).
      rewrite L, (loop_crashes uci post move' e _ T' P Suci).
      now rewrite wrote_wrote.
Qed.

(** X1. If a line that parses to a legal, truthy move comes after lines
    that all fail to parse, are illegal or are falsy, [make_move] returns
    that move: it has echoed the earlier lines, prompted once more, left
    board and timer alone and not read the lines after it. *)
Theorem make_move_first_acceptable (w : World) (pre : list string)
    (uci : string) (post : list string) (m : Move) :
  forallb (skipped (board w)) pre = true ->
  from_uci uci = Ok m -> is_legal (board w) m = true -> truthy m = true ->
  make_move w (pre ++ uci :: post)
  = (wrote (flat_map (echo w) pre ++ [Prompt prompt_text]) w, post, Ok m).
Proof using null_falsy.
  intros S P L T. unfold make_move.
  destruct (loop_skipped pre null w (uci :: post) null_falsy S)
    as (move' & T' & ->).
  rewrite (loop_accepts uci post move' m
             (wrote (flat_map (echo w) pre) w) T' P L T).
  now rewrite wrote_wrote.
Qed.

(** X2. If no line of the input is acceptable (each fails to parse, is
    illegal or is falsy), [make_move] reads all of it, echoes every line,
    prompts once more and ends in the [EOFError] of [input]. *)
Theorem make_move_end_of_input (w : World) (stdin : list string) :
  forallb (skipped (board w)) stdin = true ->
  make_move w stdin
  = (wrote (flat_map (echo w) stdin ++ [Prompt prompt_text]) w,
     [], Raise EOFError).
Proof using null_falsy.
  intros S. unfold make_move.
  destruct (loop_skipped stdin null w [] null_falsy S) as (move' & T' & L).
  rewrite app_nil_r in L. rewrite L, (loop_end_of_input _ _ T').
  now rewrite wrote_wrote.
Qed.

(** X3. Whenever [make_move] returns a move, that move is the parse of
    the last line it read, every line read before it was one that keeps
    the loop going, and the lines after it are exactly the unread ones;
    so the move returned is always the first acceptable line of the
    input. *)
Theorem make_move_returns_first (w : World) (stdin : list string)
    (w' : World) (rest : list string) (m : Move) :
  make_move w stdin = (w', rest, Ok m) ->
  exists pre uci,
    stdin = pre ++ uci :: rest
    /\ forallb (skipped (board w)) pre = true
    /\ skipped (board w) uci = false
    /\ from_uci uci = Ok m
    /\ w' = wrote (flat_map (echo w) pre ++ [Prompt prompt_text]) w.
Proof using null_falsy.
  unfold make_move.
  destruct (loop_by_cases stdin null w null_falsy)
    as [[_ ->]|[(pre & uci & post & m0 & -> & S & P & L & T & ->)
               |(pre & uci & post & e & -> & _ & _ & _ & ->)]];
    [discriminate| |discriminate].
  intros [= <- <- <-]. exists pre, uci.
  repeat (split; [assumption || reflexivity|]).
  split; [|split; [exact P|reflexivity]].
  unfold skipped. now rewrite P, L, T.
Qed.

(** X4. A call of [make_move] that returns has prompted exactly once for
    each line it read. *)
Theorem make_move_prompts_once_per_line (w : World) (stdin : list string)
    (w' : World) (rest : list string) (m : Move) :
  make_move w stdin = (w', rest, Ok m) ->
  exists out,
    stdout w' = stdout w ++ out
    /\ (prompts out + length rest = length stdin)%nat.
Proof using null_falsy.
  unfold make_move.
  destruct (loop_by_cases stdin null w null_falsy)
    as [[_ ->]|[(pre & uci & post & m0 & -> & S & P & L & T & ->)
               |(pre & uci & post & e & -> & _ & _ & _ & ->)]];
    [discriminate| |discriminate].
  intros [= <- <- <-].
  exists (flat_map (echo w) pre ++ [Prompt prompt_text]).
  split; [reflexivity|].
  rewrite prompts_app, prompts_echoes, length_app.
  change (prompts [Prompt prompt_text]) with 1%nat. simpl length. lia.
Qed.

End Oracle.

Arguments mkWorld {Board}.
Arguments board {Board}.
Arguments timer {Board}.
Arguments stdout {Board}.

(** *** A small oracle to run the loop on

    A move is its UCI text, with ["0000"] for the null move; text
    parses when it has four or five characters; a board is the list of
    the moves that are legal on it. *)

Definition toy_null : string := "0000".

Definition toy_truthy (m : string) : bool := negb (String.eqb m toy_null).

Definition toy_from_uci (uci : string) : res string :=
  if (String.length uci =? 4)%nat || (String.length uci =? 5)%nat
  then Ok uci
  else Raise (ValueError uci).

Definition toy_is_legal (b : list string) (m : string) : bool :=
  existsb (String.eqb m) b.

Definition toy_str_seconds (s : Seconds) : string :=
  match s with
  | Unbounded => "inf"
  | Finite _ => "finite"
  end.

Definition toy_make_move :=
  make_move (list string) string toy_null toy_truthy toy_from_uci
    toy_is_legal toy_str_seconds.

Definition toy_world : World (list string) :=
  mkWorld ["e2e4"; "d2d4"] (BasicTimer_init [600%Q; 2%Q]) [].

Definition toy_stdin : list string := ["e4"; "e2e5"; "0000"; "e2e4"; "g1f3"].

(** A malformed line, an illegal move and the null move are each
    rejected, the fourth line is returned and the fifth is not read. *)
Example toy_make_move_run :
  toy_make_move toy_world toy_stdin
  = (mkWorld ["e2e4"; "d2d4"] (BasicTimer_init [600%Q; 2%Q])
       [Prompt "Select move in UCI format: ";
        Line "Incorrect UCI format, try again"; Line "inf seconds left";
        Prompt "Select move in UCI format: ";
        Line "Illegal move, try again."; Line "inf seconds left";
        Prompt "Select move in UCI format: ";
        Line "Illegal move, try again."; Line "inf seconds left";
        Prompt "Select move in UCI format: "],
     ["g1f3"], Ok "e2e4").
Proof. vm_compute. reflexivity. Qed.

(** When the input ends before a legal move was typed, [input] raises
    [EOFError] after a last prompt. *)
Example toy_make_move_eof :
  toy_make_move toy_world ["e7e5"]
  = (mkWorld ["e2e4"; "d2d4"] (BasicTimer_init [600%Q; 2%Q])
       [Prompt "Select move in UCI format: ";
        Line "Illegal move, try again."; Line "inf seconds left";
        Prompt "Select move in UCI format: "],
     [], Raise EOFError).
Proof. vm_compute. reflexivity. Qed.

Lemma make_move_returns_legal_witness :
  toy_is_legal ["e2e4"; "d2d4"] "e2e4" = true
  /\ toy_is_legal ["e2e4"; "d2d4"] "e2e4" = true
  /\ toy_truthy "e2e4" = true
  /\ "e2e4" <> toy_null.
Proof.
  exact (make_move_returns_legal (list string) string toy_null toy_truthy
           toy_from_uci toy_is_legal toy_str_seconds eq_refl
           toy_world toy_stdin
           (final_world _ _ (toy_make_move toy_world toy_stdin))
           ["g1f3"] "e2e4" eq_refl).
Defined.

Lemma make_move_recovers_witness :
  toy_make_move toy_world ("e4" :: ["e2e4"])
  = toy_make_move
      (rejected (list string) toy_str_seconds
         "Incorrect UCI format, try again" toy_world) ["e2e4"]
  /\ toy_make_move toy_world ("e2e5" :: ["e2e4"])
     = toy_make_move
         (rejected (list string) toy_str_seconds
            "Illegal move, try again." toy_world) ["e2e4"].
Proof.
  split.
  - destruct (make_move_recovers (list string) string toy_null toy_truthy
                toy_from_uci toy_is_legal toy_str_seconds eq_refl
                toy_world "e4" ["e2e4"]) as (H & _).
    exact (H "e4" eq_refl).
  - destruct (make_move_recovers (list string) string toy_null toy_truthy
                toy_from_uci toy_is_legal toy_str_seconds eq_refl
                toy_world "e2e5" ["e2e4"]) as (_ & H & _).
    exact (H "e2e5" eq_refl eq_refl).
Defined.

Definition toy_skipped : list string -> string -> bool :=
  skipped (list string) string toy_truthy toy_from_uci toy_is_legal.

Definition toy_echo : World (list string) -> string -> list Out :=
  echo (list string) string toy_from_uci toy_is_legal toy_str_seconds.

Lemma make_move_first_acceptable_witness :
  toy_make_move toy_world (["e4"; "e2e5"; "0000"] ++ "e2e4" :: ["g1f3"])
  = (wrote (list string)
       (flat_map (toy_echo toy_world) ["e4"; "e2e5"; "0000"]
        ++ [Prompt "Select move in UCI format: "]) toy_world,
     ["g1f3"], Ok "e2e4").
Proof.
  exact (make_move_first_acceptable (list string) string toy_null
           toy_truthy toy_from_uci toy_is_legal toy_str_seconds eq_refl
           toy_world ["e4"; "e2e5"; "0000"] "e2e4" ["g1f3"] "e2e4"
           eq_refl eq_refl eq_refl eq_refl).
Defined.

Lemma make_move_end_of_input_witness :
  toy_make_move toy_world ["e4"; "e7e5"]
  = (wrote (list string)
       (flat_map (toy_echo toy_world) ["e4"; "e7e5"]
        ++ [Prompt "Select move in UCI format: "]) toy_world,
     [], Raise EOFError).
Proof.
  exact (make_move_end_of_input (list string) string toy_null
           toy_truthy toy_from_uci toy_is_legal toy_str_seconds eq_refl
           toy_world ["e4"; "e7e5"] eq_refl).
Defined.

Lemma make_move_returns_first_witness :
  exists pre uci,
    toy_stdin = pre ++ uci :: ["g1f3"]
    /\ forallb (toy_skipped ["e2e4"; "d2d4"]) pre = true
    /\ toy_skipped ["e2e4"; "d2d4"] uci = false
    /\ toy_from_uci uci = Ok "e2e4"
    /\ final_world (list string) string (toy_make_move toy_world toy_stdin)
       = wrote (list string)
           (flat_map (toy_echo toy_world) pre
            ++ [Prompt "Select move in UCI format: "]) toy_world.
Proof.
  exact (make_move_returns_first (list string) string toy_null
           toy_truthy toy_from_uci toy_is_legal toy_str_seconds eq_refl
           toy_world toy_stdin
           (final_world _ _ (toy_make_move toy_world toy_stdin))
           ["g1f3"] "e2e4" eq_refl).
Defined.

Lemma make_move_prompts_once_per_line_witness :
  exists out,
    stdout (final_world (list string) string
              (toy_make_move toy_world toy_stdin))
    = [] ++ out
    /\ (prompts out + 1 = 5)%nat.
Proof.
  exact (make_move_prompts_once_per_line (list string) string toy_null
           toy_truthy toy_from_uci toy_is_legal toy_str_seconds eq_refl
           toy_world toy_stdin
           (final_world _ _ (toy_make_move toy_world toy_stdin))
           ["g1f3"] "e2e4" eq_refl).
Defined.

End Human.

(** ** The command line driver *)

Module Cli.
Import Py Timer.

(** The parameters of [main], which are also the attributes of the
    namespace that [parse_arguments] returns. *)
Record Args : Type := mkArgs {
  white : string;
  black : string;
  display_mode : string;
  timer : string;
  start_seconds : Q;
  increment_seconds : Q;
  board_dir : option string;
  frame_dir : option string;
  output_gif : option string;
  width : Z;
  height : Z;
  win_screen_time : Q;
  wins_required : Z;
  record_file : option string;
  initial_board_state : option string
}.

(** How a process started through [cli_interface] ends: with an exit
    status, or with an exception that nothing caught. *)
Inductive Process : Type :=
| Exit (status : Z)
| Uncaught (e : exn).

(** The status the interpreter reports: the argument of [exit], and 1
    for an exception that reached the top level. *)
Definition exit_status (p : Process) : Z :=
  match p with
  | Exit status => status
  | Uncaught _ => 1
  end.

Section Collaborators.

(** Objects of classes defined in other modules; [main] only creates
    them and passes them on. *)
Variable AI : Type.
Variable Match : Type.
Variable Json : Type.

(** The two ways [main] calls a class of [match_modes]. *)
Inductive MatchArgs : Type :=
| Visual (white_ai black_ai : AI) (base_timer : Timer)
    (wins : Z) (w h : Z) (boards_dir frames_dir gif : option string)
    (win_screen : Q) (initial : option string)
| Headless (white_ai black_ai : AI) (base_timer : Timer)
    (wins : Z) (initial : option string).

Definition base_timer_of (m : MatchArgs) : Timer :=
  match m with
  | Visual _ _ t _ _ _ _ _ _ _ _ => t
  | Headless _ _ t _ _ => t
  end.

(** The calls that [main] and [cli_interface] make to the outside, in
    the order they are made. *)
Inductive Event : Type :=
| NewAI (name : string)
| NewTimer (name : string) (args : list Q)
| NewMatch (mode : string) (args : MatchArgs)
| PlayMatch
| WriteFile (path : string) (content : string)
| Stderr (e : exn).

(** The registries imported from [..ai], [..timer] and [..match]:
    dicts from a name to a class, a class being what its call gives. *)
Variable AIs : gmap string (unit -> res AI).
Variable timers : gmap string (list Q -> res Timer).
Variable match_modes : gmap string (MatchArgs -> res Match).
(** [match.play_match()]: the winner ([chess.WHITE] is [True]) and the
    match object as the games left it. *)
Variable play_match : Match -> res (bool * Match).
(** [match.record.to_dict()] and [json.dump] *)
Variable to_dict : Match -> Json.
Variable json_dumps : Json -> string.
(** [open(path, "w")] may be refused. *)
Variable open_w : string -> res unit.

(** Calls are logged as they happen; an exception ends the run. *)
Definition M (A : Type) : Type := list Event * res A.

Definition ret {A} (a : A) : M A := ([], Ok a).

Definition bindM {A B} (c : M A) (k : A -> M B) : M B :=
  match c with
  | (tr, Ok a) => let '(tr', r) := k a in (tr ++ tr', r)
  | (tr, Raise e) => (tr, Raise e)
  end.

Definition call {A} (ev : Event) (r : res A) : M A := ([ev], r).

Definition pure_ {A} (r : res A) : M A := ([], r).

(** [try: c  except KeyError: raise e] *)
Definition try_KeyError {A} (c : M A) (e : exn) : M A :=
  (fst c, except_KeyError (snd c) e).

Notation "'let!' x ':=' c 'in' k" := (bindM c (fun x => k))
  (at level 10, x name, c at level 100, k at level 200).

(** [main(white, black, display_mode, timer, ...)] *)
Definition main (a : Args) : M Z :=
  let! white_ai := try_KeyError
    (let! cls := pure_ (getitem AIs (white a)) in
     call (NewAI (white a)) (cls tt))
    (NonExistentAI (white a)) in
  let! black_ai := try_KeyError
    (let! cls := pure_ (getitem AIs (black a)) in
     call (NewAI (black a)) (cls tt))
    (NonExistentAI (black a)) in
  let! base_timer := try_KeyError
    (let! cls := pure_ (getitem timers (timer a)) in
     let args := [start_seconds a; increment_seconds a] in
     call (NewTimer (timer a) args) (cls args))
    (NonExistentTimer (timer a)) in
  let! match_ := try_KeyError
    (if String.eqb (display_mode a) "visual" then
       let! cls := pure_ (getitem match_modes (display_mode a)) in
       let args :=
         Visual white_ai black_ai base_timer (wins_required a)
           (width a) (height a) (board_dir a) (frame_dir a)
           (output_gif a) (win_screen_time a) (initial_board_state a) in
       call (NewMatch (display_mode a) args) (cls args)
     else
       let! cls := pure_ (getitem match_modes (display_mode a)) in
       let args :=
         Headless white_ai black_ai base_timer (wins_required a)
           (initial_board_state a) in
       call (NewMatch (display_mode a) args) (cls args))
    (NonExistentMatch (display_mode a)) in
  let! result := call PlayMatch (play_match match_) in
  let winner := fst result in
  let match_ := snd result in
  let color := if winner then "White" else "Black" in
  let! written :=
    match record_file a with
    | Some path =>
        let! fout := pure_ (open_w path) in
        call (WriteFile path (json_dumps (to_dict match_))) (Ok tt)
    | None => ret tt
    end in
  ret 0%Z.

(** [cli_interface()], from the parsed arguments on. *)
Definition cli_interface (a : Args) : list Event * Process :=
  match main a with
  | (tr, Ok code) => (tr, Exit code)
  | (tr, Raise (NonExistentAI n)) =>
      (tr ++ [Stderr (NonExistentAI n)], Exit 1)
  | (tr, Raise (NonExistentTimer n)) =>
      (tr ++ [Stderr (NonExistentTimer n)], Exit 2)
  | (tr, Raise (PermissionError m)) =>
      (tr ++ [Stderr (PermissionError m)], Exit 4)
  | (tr, Raise e) => (tr, Uncaught e)
  end.

(** The files written during a run. *)
Definition writes (tr : list Event) : list (string * string) :=
  flat_map (fun ev => match ev with
                      | WriteFile p c => [(p, c)]
                      | _ => []
                      end) tr.

Definition is_PlayMatch (ev : Event) : bool :=
  match ev with PlayMatch => true | _ => false end.

Definition played (tr : list Event) : bool := existsb is_PlayMatch tr.

Definition timers_made (tr : list Event) : list (string * list Q) :=
  flat_map (fun ev => match ev with
                      | NewTimer n args => [(n, args)]
                      | _ => []
                      end) tr.

Definition matches_made (tr : list Event) : list (string * MatchArgs) :=
  flat_map (fun ev => match ev with
                      | NewMatch n args => [(n, args)]
                      | _ => []
                      end) tr.

(** *** Reasoning about a run of [main] *)

(** The two halves of [main]: lines 81 to 113 set the match up, lines
    115 to 126 play it and report. *)
Definition setup (a : Args) : M Match :=
  let! white_ai := try_KeyError
    (let! cls := pure_ (getitem AIs (white a)) in
     call (NewAI (white a)) (cls tt))
    (NonExistentAI (white a)) in
  let! black_ai := try_KeyError
    (let! cls := pure_ (getitem AIs (black a)) in
     call (NewAI (black a)) (cls tt))
    (NonExistentAI (black a)) in
  let! base_timer := try_KeyError
    (let! cls := pure_ (getitem timers (timer a)) in
     let args := [start_seconds a; increment_seconds a] in
     call (NewTimer (timer a) args) (cls args))
    (NonExistentTimer (timer a)) in
  try_KeyError
    (if String.eqb (display_mode a) "visual" then
       let! cls := pure_ (getitem match_modes (display_mode a)) in
       let args :=
         Visual white_ai black_ai base_timer (wins_required a)
           (width a) (height a) (board_dir a) (frame_dir a)
           (output_gif a) (win_screen_time a) (initial_board_state a) in
       call (NewMatch (display_mode a) args) (cls args)
     else
       let! cls := pure_ (getitem match_modes (display_mode a)) in
       let args :=
         Headless white_ai black_ai base_timer (wins_required a)
           (initial_board_state a) in
       call (NewMatch (display_mode a) args) (cls args))
    (NonExistentMatch (display_mode a)).

Definition finish (a : Args) (match_ : Match) : M Z :=
  let! result := call PlayMatch (play_match match_) in
  let! written :=
    match record_file a with
    | Some path =>
        let! fout := pure_ (open_w path) in
        call (WriteFile path (json_dumps (to_dict (snd result)))) (Ok tt)
    | None => ret tt
    end in
  ret 0%Z.

Lemma main_setup_finish (a : Args) :
  main a = let! match_ := setup a in finish a match_.
Proof.
  unfold main, setup, finish, bindM, try_KeyError, pure_, call, ret.
  repeat (simpl; case_match; simplify_eq); simpl;
    rewrite <- ?app_assoc; reflexivity.
Qed.

Ltac run :=
  unfold bindM, try_KeyError, pure_, call, ret, getitem, except_KeyError;
  repeat (simpl in *; case_match; simplify_eq).

(** A set-up that succeeds has made four calls: the two AI classes,
    the timer class, once, on the configured seconds, and the match
    class on the objects so obtained. *)
Lemma setup_ok (a : Args) (tr : list Event) (m : Match) :
  setup a = (tr, Ok m) ->
  exists white_cls black_cls timer_cls match_cls white_ai black_ai margs,
    AIs !! white a = Some white_cls /\ white_cls tt = Ok white_ai
    /\ AIs !! black a = Some black_cls /\ black_cls tt = Ok black_ai
    /\ timers !! timer a = Some timer_cls
    /\ timer_cls [start_seconds a; increment_seconds a]
       = Ok (base_timer_of margs)
    /\ match_modes !! display_mode a = Some match_cls
    /\ match_cls margs = Ok m
    /\ tr = [NewAI (white a); NewAI (black a);
             NewTimer (timer a) [start_seconds a; increment_seconds a];
             NewMatch (display_mode a) margs].
Proof.
  unfold setup. run; intros; simplify_eq;
    repeat eexists; eauto.
Qed.

(** Whatever the set-up does, it plays no match and writes no file;
    and if it got as far as calling a match class, it has called the
    timer class once, on the configured seconds, and the match class
    once, on the timer that call returned. *)
Lemma setup_trace (a : Args) (tr : list Event) (r : res Match) :
  setup a = (tr, r) ->
  played tr = false /\ writes tr = []
  /\ forall mode margs, In (mode, margs) (matches_made tr) ->
       matches_made tr = [(display_mode a, margs)]
       /\ timers_made tr
          = [(timer a, [start_seconds a; increment_seconds a])]
       /\ exists cls, timers !! timer a = Some cls
            /\ cls [start_seconds a; increment_seconds a]
               = Ok (base_timer_of margs).
Proof.
  unfold setup. run; intros; simplify_eq; simpl;
    (split; [reflexivity | split; [reflexivity |]]);
    intros mode margs Hin; simpl in Hin;
    first [ destruct Hin as [[= <- <-]|[]]; simpl; eauto
          | destruct Hin ].
Qed.

Lemma finish_trace (a : Args) (m : Match) (tr : list Event) (r : res Z) :
  finish a m = (tr, r) ->
  played tr = true /\ timers_made tr = [] /\ matches_made tr = []
  /\ match r with Ok code => code = 0%Z | Raise _ => True end
  /\ (record_file a = None -> writes tr = [])
  /\ (forall p c, In (p, c) (writes tr) ->
        record_file a = Some p
        /\ exists winner m', play_match m = Ok (winner, m')
                             /\ c = json_dumps (to_dict m'))
  /\ (forall p code, record_file a = Some p -> r = Ok code ->
        exists winner m', play_match m = Ok (winner, m')
          /\ writes tr = [(p, json_dumps (to_dict m'))]).
Proof.
  unfold finish. run; intros; simplify_eq; simpl;
    repeat split; auto; try done.
  all: repeat match goal with
         | H : _ \/ False |- _ => destruct H as [[= <- <-]|[]]
         | x : (bool * Match)%type |- _ => destruct x
         end; try intros p code [= <-] _; eauto.
Qed.

Lemma writes_app tr1 tr2 : writes (tr1 ++ tr2) = writes tr1 ++ writes tr2.
Proof. apply flat_map_app. Qed.

Lemma timers_made_app tr1 tr2 :
  timers_made (tr1 ++ tr2) = timers_made tr1 ++ timers_made tr2.
Proof. apply flat_map_app. Qed.

Lemma matches_made_app tr1 tr2 :
  matches_made (tr1 ++ tr2) = matches_made tr1 ++ matches_made tr2.
Proof. apply flat_map_app. Qed.

Lemma played_app tr1 tr2 : played (tr1 ++ tr2) = played tr1 || played tr2.
Proof. apply existsb_app. Qed.

(** A run of [main] is a set-up that fails, or a set-up that succeeds
    followed by the second half. *)
Lemma main_run (a : Args) (tr : list Event) (r : res Z) :
  main a = (tr, r) ->
  (exists e, setup a = (tr, Raise e) /\ r = Raise e)
  \/ (exists tr1 m tr2, setup a = (tr1, Ok m) /\ finish a m = (tr2, r)
                        /\ tr = tr1 ++ tr2).
Proof.
  rewrite main_setup_finish. unfold bindM.
  destruct (setup a) as [tr1 [m|e]].
  - destruct (finish a m) as [tr2 r2] eqn:F. intros [= <- <-].
    right. eauto 6.
  - intros [= <- <-]. left. eauto.
Qed.

(** *** Unknown names *)

Lemma cli_unknown_white (a : Args) :
  AIs !! white a = None ->
  cli_interface a = ([Stderr (NonExistentAI (white a))], Exit 1).
Proof.
  intros H. unfold cli_interface, main, bindM, try_KeyError, pure_,
    getitem. now rewrite H.
Qed.

Lemma cli_unknown_black (a : Args) cls ai :
  AIs !! white a = Some cls -> cls tt = Ok ai ->
  AIs !! black a = None ->
  cli_interface a
  = ([NewAI (white a); Stderr (NonExistentAI (black a))], Exit 1).
Proof.
  intros H1 H2 H3. unfold cli_interface, main, bindM, try_KeyError,
    pure_, call, getitem. rewrite H1. simpl. rewrite H2. simpl.
  now rewrite H3.
Qed.

Lemma cli_unknown_timer (a : Args) cls1 ai1 cls2 ai2 :
  AIs !! white a = Some cls1 -> cls1 tt = Ok ai1 ->
  AIs !! black a = Some cls2 -> cls2 tt = Ok ai2 ->
  timers !! timer a = None ->
  cli_interface a
  = ([NewAI (white a); NewAI (black a);
      Stderr (NonExistentTimer (timer a))], Exit 2).
Proof.
  intros H1 H2 H3 H4 H5. unfold cli_interface, main, bindM,
    try_KeyError, pure_, call, getitem.
  rewrite H1. simpl. rewrite H2. simpl. rewrite H3. simpl.
  rewrite H4. simpl. now rewrite H5.
Qed.

(** An unknown display mode reaches no handler of [cli_interface]. *)
Lemma cli_unknown_display_mode (a : Args) cls1 ai1 cls2 ai2 cls3 t :
  AIs !! white a = Some cls1 -> cls1 tt = Ok ai1 ->
  AIs !! black a = Some cls2 -> cls2 tt = Ok ai2 ->
  timers !! timer a = Some cls3 ->
  cls3 [start_seconds a; increment_seconds a] = Ok t ->
  match_modes !! display_mode a = None ->
  cli_interface a
  = ([NewAI (white a); NewAI (black a);
      NewTimer (timer a) [start_seconds a; increment_seconds a]],
     Uncaught (NonExistentMatch (display_mode a))).
Proof.
  intros H1 H2 H3 H4 H5 H6 H7. unfold cli_interface, main, bindM,
    try_KeyError, pure_, call, getitem.
  rewrite H1. simpl. rewrite H2. simpl. rewrite H3. simpl.
  rewrite H4. simpl. rewrite H5. simpl. rewrite H6. simpl.
  rewrite H7. now destruct (String.eqb (display_mode a) "visual").
Qed.

(** *** What [main] does with the timer, the exit code and the record *)

(** C2, as the code has it.  In every run of [main] that gets as far
    as calling a match class, the class registered under the
    configured timer name has been called exactly once, on
    [(start_seconds, increment_seconds)], and the one timer it
    returned is the base timer handed to the match class, which is
    called once.  What that timer carries is up to the class: a
    [BasicTimer] drops both arguments, its remaining budget is
    unbounded and its increment is 0 whatever was configured. *)
Theorem main_constructs_one_timer (a : Args) (tr : list Event)
    (r : res Z) (mode : string) (margs : MatchArgs) :
  main a = (tr, r) ->
  In (mode, margs) (matches_made tr) ->
  timers_made tr = [(timer a, [start_seconds a; increment_seconds a])]
  /\ matches_made tr = [(display_mode a, margs)]
  /\ (exists cls, timers !! timer a = Some cls
        /\ cls [start_seconds a; increment_seconds a]
           = Ok (base_timer_of margs))
  /\ (timers !! timer a = Some (fun args => Ok (BasicTimer_init args)) ->
      base_timer_of margs = mkTimer 0 Unbounded 0).
Proof.
  intros Hm Hin.
  assert (Hs : exists tr1 rs tr2, setup a = (tr1, rs)
             /\ tr = tr1 ++ tr2
             /\ timers_made tr2 = [] /\ matches_made tr2 = []).
  { apply main_run in Hm. destruct Hm as [(e & Hs & _)|(tr1 & m & tr2 & Hs & Hf & ->)].
    - exists tr, (Raise e), []. rewrite app_nil_r. auto.
    - apply finish_trace in Hf. destruct Hf as (_ & Ht & Hmm & _).
      eauto 8. }
  destruct Hs as (tr1 & rs & tr2 & Hs & -> & Ht2 & Hm2).
  rewrite timers_made_app, matches_made_app, Ht2, Hm2, !app_nil_r in *.
  apply setup_trace in Hs. destruct Hs as (_ & _ & Hs).
  destruct (Hs _ _ Hin) as (Hmm & Htt & cls & Hc1 & Hc2).
  repeat split; auto.
  - eauto.
  - intros Hb. rewrite Hb in Hc1. injection Hc1 as <-.
    injection Hc2 as <-. reflexivity.
Qed.

(** C9. Whenever [main] returns, it returns 0: the value does not
    depend on the winner that [play_match] reported, nor on anything
    else; and a run that returns has played the match. *)
Theorem main_returns_zero (a : Args) (tr : list Event) (code : Z) :
  main a = (tr, Ok code) -> code = 0%Z /\ played tr = true.
Proof.
  intros Hm. apply main_run in Hm.
  destruct Hm as [(e & _ & [=])|(tr1 & m & tr2 & _ & Hf & ->)].
  apply finish_trace in Hf. destruct Hf as (Hp & _ & _ & Hc & _).
  rewrite played_app, Hp, orb_true_r. auto.
Qed.

(** C10. With [record_file] left at [None], no run of [main] writes a
    file, however it ends.  With [record_file] a path, the only file
    a run can write is that path, and what it receives is the JSON
    text of [to_dict] of the match as [play_match] left it; a run
    that returns has written exactly that one file, once, and a run
    that raises during set-up has written nothing. *)
Theorem main_record_write (a : Args) (tr : list Event) (r : res Z) :
  main a = (tr, r) ->
  (record_file a = None -> writes tr = [])
  /\ (forall p c, In (p, c) (writes tr) ->
        record_file a = Some p
        /\ exists tr0 m winner m',
             setup a = (tr0, Ok m)
             /\ play_match m = Ok (winner, m')
             /\ c = json_dumps (to_dict m'))
  /\ (forall p code, record_file a = Some p -> r = Ok code ->
        exists tr0 m winner m',
          setup a = (tr0, Ok m)
          /\ play_match m = Ok (winner, m')
          /\ writes tr = [(p, json_dumps (to_dict m'))])
  /\ (forall tr0 e, setup a = (tr0, Raise e) ->
        r = Raise e /\ writes tr = []).
Proof.
  intros Hm. apply main_run in Hm.
  destruct Hm as [(e & Hs & ->)|(tr1 & m & tr2 & Hs & Hf & ->)].
  - pose proof (setup_trace _ _ _ Hs) as (_ & Hw & _).
    rewrite Hw. split; [reflexivity|]. split; [intros p c []|].
    split; [discriminate|].
    intros tr0 e0 He. rewrite Hs in He. injection He as <- <-. auto.
  - pose proof (setup_trace _ _ _ Hs) as (_ & Hw & _).
    apply finish_trace in Hf.
    destruct Hf as (_ & _ & _ & _ & Hnone & Honly & Hret).
    rewrite writes_app, Hw. simpl.
    split; [exact Hnone|]. split; [|split].
    + intros p c Hin. destruct (Honly p c Hin) as (Hp & winner & m' & ? & ?).
      split; [exact Hp|]. eauto 8.
    + intros p code Hp Hr.
      destruct (Hret p code Hp Hr) as (winner & m' & ? & ?). eauto 8.
    + intros tr0 e He. rewrite Hs in He. discriminate.
Qed.

(** *** More on the runs of [main] and [cli_interface] *)

(** The second half of a run that returns: the match was played, and
    the record file, if any, was opened and written. *)
Lemma finish_ok (a : Args) (m : Match) (tr : list Event) (code : Z) :
  finish a m = (tr, Ok code) ->
  exists winner m',
    play_match m = Ok (winner, m')
    /\ code = 0%Z
    /\ tr = PlayMatch ::
            match record_file a with
            | Some p => [WriteFile p (json_dumps (to_dict m'))]
            | None => []
            end.
Proof.
  unfold finish. run; intros; simplify_eq;
    match goal with x : (bool * Match)%type |- _ => destruct x end;
    eauto.
Qed.

(** X5. A run of [main] that returns has made exactly these calls, in
    this order: the white AI class, the black AI class, the timer class
    on [(start_seconds, increment_seconds)], the match class of the
    display mode, [play_match], and then, only if [record_file] is a
    path, one write to that path. *)
Theorem main_calls_in_order (a : Args) (tr : list Event) (code : Z) :
  main a = (tr, Ok code) ->
  exists margs content,
    tr = [NewAI (white a); NewAI (black a);
          NewTimer (timer a) [start_seconds a; increment_seconds a];
          NewMatch (display_mode a) margs;
          PlayMatch]
         ++ match record_file a with
            | Some p => [WriteFile p content]
            | None => []
            end.
Proof.
  intros Hm. apply main_run in Hm.
  destruct Hm as [(e & _ & [=])|(tr1 & m & tr2 & Hs & Hf & ->)].
  apply setup_ok in Hs.
  destruct Hs as (? & ? & ? & ? & ? & ? & margs & _ & _ & _ & _ & _ & _ & _ & _ & ->).
  apply finish_ok in Hf. destruct Hf as (winner & m' & _ & _ & ->).
  exists margs, (json_dumps (to_dict m')). reflexivity.
Qed.

(** X6. Unknown names are found in the order white, black, timer, and
    what comes before has already been constructed: an unknown white AI
    ends the process with status 1 before anything is constructed,
    whatever the other names are; an unknown black AI ends it with
    status 1 after the white AI was constructed; an unknown timer ends
    it with status 2 after both AIs were constructed. *)
Theorem cli_first_unknown_name (a : Args) :
  (AIs !! white a = None ->
   cli_interface a = ([Stderr (NonExistentAI (white a))], Exit 1))
  /\ (forall cls ai,
        AIs !! white a = Some cls -> cls tt = Ok ai ->
        AIs !! black a = None ->
        cli_interface a
        = ([NewAI (white a); Stderr (NonExistentAI (black a))], Exit 1))
  /\ (forall cls1 ai1 cls2 ai2,
        AIs !! white a = Some cls1 -> cls1 tt = Ok ai1 ->
        AIs !! black a = Some cls2 -> cls2 tt = Ok ai2 ->
        timers !! timer a = None ->
        cli_interface a
        = ([NewAI (white a); NewAI (black a);
            Stderr (NonExistentTimer (timer a))], Exit 2)).
Proof.
  split; [apply cli_unknown_white|].
  split; [intros; eapply cli_unknown_black; eauto|].
  intros; eapply cli_unknown_timer; eauto.
Qed.

(** X7. The [try] around [AIs[white]()] also covers the call of the
    class: when the white AI is registered but its constructor raises a
    [KeyError], [main] reports the AI itself as non-existent and the
    process ends with status 1. *)
Theorem constructor_KeyError_reported_as_unknown (a : Args)
    (cls : unit -> res AI) (key : string) :
  AIs !! white a = Some cls -> cls tt = Raise (KeyError key) ->
  main a = ([NewAI (white a)], Raise (NonExistentAI (white a)))
  /\ cli_interface a
     = ([NewAI (white a); Stderr (NonExistentAI (white a))], Exit 1).
Proof.
  intros H1 H2. unfold cli_interface, main, bindM, try_KeyError, pure_,
    call, getitem. rewrite H1. simpl. rewrite H2. simpl. auto.
Qed.

(** The [try] statement of [cli_interface], for given parsed arguments:
    when it ends through [exit], the status is 0 for a run of [main]
    that returned, 1 for [NonExistentAI], 2 for [NonExistentTimer] and
    4 for [PermissionError]. *)
Lemma cli_exit_statuses (a : Args) (tr : list Event) (n : Z) :
  cli_interface a = (tr, Exit n) ->
  (n = 0%Z /\ main a = (tr, Ok 0%Z))
  \/ (n = 1%Z /\ exists name, snd (main a) = Raise (NonExistentAI name))
  \/ (n = 2%Z /\ exists name, snd (main a) = Raise (NonExistentTimer name))
  \/ (n = 4%Z /\ exists msg, snd (main a) = Raise (PermissionError msg)).
Proof.
  unfold cli_interface. destruct (main a) as [tr0 [code|e]] eqn:Hm.
  - intros [= <- <-]. left.
    apply main_run in Hm.
    destruct Hm as [(e & _ & [=])|(tr1 & m & tr2 & _ & Hf & ->)].
    apply finish_ok in Hf. destruct Hf as (_ & _ & _ & -> & _). auto.
  - destruct e; intros [= <- <-]; simpl; eauto 6.
Qed.

(** X9. With a display mode other than ["visual"], the window and
    image options are never looked at: two calls of [main] that differ
    only in [width], [height], [board_dir], [frame_dir], [output_gif]
    and [win_screen_time] do the same thing. *)
Theorem other_modes_ignore_window_options (a a' : Args) :
  display_mode a <> "visual" ->
  white a' = white a -> black a' = black a ->
  display_mode a' = display_mode a -> timer a' = timer a ->
  start_seconds a' = start_seconds a ->
  increment_seconds a' = increment_seconds a ->
  wins_required a' = wins_required a ->
  record_file a' = record_file a ->
  initial_board_state a' = initial_board_state a ->
  main a' = main a.
Proof.
  intros Hv H1 H2 H3 H4 H5 H6 H7 H8 H9. unfold main.
  rewrite H1, H2, H3, H4, H5, H6, H7, H8, H9.
  apply String.eqb_neq in Hv. rewrite Hv. reflexivity.
Qed.

(** X10. When the record file cannot be opened for writing, the match
    has been played to its end all the same; its record is not written
    anywhere, the error is printed and the process ends with status
    4. *)
Theorem record_file_refused (a : Args) (tr0 : list Event) (m : Match)
    (result : bool * Match) (p msg : string) :
  setup a = (tr0, Ok m) -> play_match m = Ok result ->
  record_file a = Some p -> open_w p = Raise (PermissionError msg) ->
  cli_interface a
  = (tr0 ++ [PlayMatch; Stderr (PermissionError msg)], Exit 4)
  /\ writes (fst (cli_interface a)) = [].
Proof.
  intros Hs Hp Hr Ho.
  assert (Hm : main a = (tr0 ++ [PlayMatch], Raise (PermissionError msg))).
  { rewrite main_setup_finish. unfold bindM at 1. rewrite Hs.
    unfold finish, bindM, call, pure_. rewrite Hp, Hr, Ho. reflexivity. }
  unfold cli_interface. rewrite Hm. simpl. split.
  - now rewrite <- app_assoc.
  - apply setup_trace in Hs. destruct Hs as (_ & Hw & _).
    now rewrite !writes_app, Hw.
Qed.

(** X11. When [play_match] raises, the exception leaves [main] as it
    is, and no record is written even though [record_file] may be a
    path: a match that does not end normally leaves no record. *)
Theorem play_match_failure_leaves_no_record (a : Args)
    (tr0 : list Event) (m : Match) (e : exn) :
  setup a = (tr0, Ok m) -> play_match m = Raise e ->
  main a = (tr0 ++ [PlayMatch], Raise e)
  /\ writes (fst (main a)) = [].
Proof.
  intros Hs Hp.
  assert (Hm : main a = (tr0 ++ [PlayMatch], Raise e)).
  { rewrite main_setup_finish. unfold bindM at 1. rewrite Hs.
    unfold finish, bindM, call. rewrite Hp. reflexivity. }
  rewrite Hm. split; [reflexivity|]. simpl.
  apply setup_trace in Hs. destruct Hs as (_ & Hw & _).
  now rewrite writes_app, Hw.
Qed.

(** The arguments with other seconds. *)
Definition with_seconds (a : Args) (start incr : Q) : Args :=
  {| white := white a; black := black a; display_mode := display_mode a;
     timer := timer a; start_seconds := start;
     increment_seconds := incr;
     board_dir := board_dir a; frame_dir := frame_dir a;
     output_gif := output_gif a; width := width a; height := height a;
     win_screen_time := win_screen_time a;
     wins_required := wins_required a; record_file := record_file a;
     initial_board_state := initial_board_state a |}.

(** A trace with the arguments of the timer class left out. *)
Definition forget_timer_args (tr : list Event) : list Event :=
  map (fun ev => match ev with
                 | NewTimer name _ => NewTimer name []
                 | _ => ev
                 end) tr.

(** X12. When the configured timer is [BasicTimer], [start_seconds] and
    [increment_seconds] have no effect: with any other two values
    [main] ends the same way and makes the same calls with the same
    objects, the only difference being the two numbers passed to the
    timer class, which drops them. *)
Theorem BasicTimer_seconds_have_no_effect (a : Args) (start incr : Q) :
  timers !! timer a = Some (fun args => Ok (BasicTimer_init args)) ->
  snd (main (with_seconds a start incr)) = snd (main a)
  /\ forget_timer_args (fst (main (with_seconds a start incr)))
     = forget_timer_args (fst (main a)).
Proof.
  intros Ht. unfold main, with_seconds. simpl.
  unfold bindM, try_KeyError, pure_, call, ret, getitem. rewrite Ht.
  unfold BasicTimer_init, except_KeyError, forget_timer_args.
  repeat (simpl; case_match; simplify_eq); simpl; auto.
Qed.

(** *** The whole of [cli_interface] *)

(** What [parse_arguments()] does with a command line: [argparse]
    returns the namespace, or ends the process itself (after a usage
    error or after printing the help) with a status of its own. *)
Inductive Parsed : Type :=
| Namespace (a : Args)
| ArgparseExit (status : Z).

Variable parse_arguments : list string -> Parsed.

(** [cli_interface()] from its first statement, on a command line:
    [args = parse_arguments()], then the [try] statement.  What
    [argparse] prints is not part of the trace. *)
Definition cli_interface_on (argv : list string) : list Event * Process :=
  match parse_arguments argv with
  | Namespace a => cli_interface a
  | ArgparseExit status => ([], Exit status)
  end.

(** X8. When [cli_interface] ends through [exit], then either
    [argparse] ended the process inside [parse_arguments], before
    [main] was called, with a status of its own; or the arguments were
    parsed and the status is 0, 1, 2 or 4 and nothing else: 0 only for
    a run of [main] that returned, 1 only for [NonExistentAI], 2 only
    for [NonExistentTimer], 4 only for [PermissionError]. *)
Theorem cli_interface_on_exit_statuses (argv : list string)
    (tr : list Event) (n : Z) :
  cli_interface_on argv = (tr, Exit n) ->
  (parse_arguments argv = ArgparseExit n /\ tr = [])
  \/ exists a,
       parse_arguments argv = Namespace a
       /\ ((n = 0%Z /\ main a = (tr, Ok 0%Z))
           \/ (n = 1%Z /\ exists name,
                 snd (main a) = Raise (NonExistentAI name))
           \/ (n = 2%Z /\ exists name,
                 snd (main a) = Raise (NonExistentTimer name))
           \/ (n = 4%Z /\ exists msg,
                 snd (main a) = Raise (PermissionError msg))).
Proof.
  unfold cli_interface_on.
  destruct (parse_arguments argv) as [a|status] eqn:P.
  - intros H. right. exists a. split; [reflexivity|].
    now apply cli_exit_statuses.
  - intros [= <- <-]. left. auto.
Qed.

End Collaborators.

Arguments Visual {AI}.
Arguments Headless {AI}.
Arguments NewAI {AI}.
Arguments NewTimer {AI}.
Arguments NewMatch {AI}.
Arguments PlayMatch {AI}.
Arguments WriteFile {AI}.
Arguments Stderr {AI}.

(** *** A concrete installation to run the driver on

    Two AIs and the timer that the source files name, and two display
    modes.  A match object here only remembers how it was made; playing
    it makes white the winner and fills in a record. *)

Record ToyMatch : Type := mkToyMatch {
  toy_args : MatchArgs string;
  toy_record : string
}.

Definition toy_AIs : gmap string (unit -> res string) :=
  {[ "RandomAI" := fun _ => Ok "RandomAI"; "Human" := fun _ => Ok "Human" ]}.

Definition toy_timers : gmap string (list Q -> res Timer) :=
  {[ "BasicTimer" := fun args => Ok (BasicTimer_init args) ]}.

Definition toy_match_modes : gmap string (MatchArgs string -> res ToyMatch) :=
  {[ "visual" := fun args => Ok (mkToyMatch args "{}");
     "text" := fun args => Ok (mkToyMatch args "{}") ]}.

Definition toy_play_match (m : ToyMatch) : res (bool * ToyMatch) :=
  Ok (true, mkToyMatch (toy_args m) "{winner: white}").

Definition toy_open_w (path : string) : res unit :=
  if String.eqb path "/etc/record.json" then Raise (PermissionError path)
  else Ok tt.

Definition toy_main : Args -> list (Event string) * res Z :=
  main string ToyMatch string toy_AIs toy_timers toy_match_modes
    toy_play_match toy_record (fun j => j) toy_open_w.

Definition toy_cli_interface : Args -> list (Event string) * Process :=
  cli_interface string ToyMatch string toy_AIs toy_timers toy_match_modes
    toy_play_match toy_record (fun j => j) toy_open_w.

(** The arguments as [parse_arguments] fills them in when only the two
    players are given, the display mode and the record file varying. *)
Definition args_of (white black mode timer : string)
    (record : option string) : Args :=
  {| white := white; black := black; display_mode := mode;
     timer := timer; start_seconds := 600; increment_seconds := 2;
     board_dir := None; frame_dir := None; output_gif := None;
     width := 800; height := 600; win_screen_time := 5;
     wins_required := 1; record_file := record;
     initial_board_state := None |}.

Definition default_args : Args :=
  args_of "RandomAI" "Human" "visual" "BasicTimer" None.

Example toy_main_default :
  toy_main default_args
  = ([NewAI "RandomAI"; NewAI "Human";
      NewTimer "BasicTimer" [600%Q; 2%Q];
      NewMatch "visual"
        (Visual "RandomAI" "Human" (mkTimer 0 Unbounded 0) 1 800 600
           None None None 5 None);
      PlayMatch],
     Ok 0%Z).
Proof. vm_compute. reflexivity. Qed.

Definition recorded_args : Args :=
  args_of "RandomAI" "Human" "text" "BasicTimer" (Some "game.json").

Definition unknown_mode_args : Args :=
  args_of "RandomAI" "Human" "hologram" "BasicTimer" None.

Definition unknown_white_args : Args :=
  args_of "Deep Blue" "Human" "visual" "BasicTimer" None.

Definition unknown_black_args : Args :=
  args_of "RandomAI" "Deep Blue" "visual" "BasicTimer" None.

Definition unknown_timer_args : Args :=
  args_of "RandomAI" "Human" "visual" "Sundial" None.

(** C1. The three kinds of unknown name are all detected during set-up,
    before [play_match], and raised as [NonExistentAI],
    [NonExistentTimer] and [NonExistentMatch].  [cli_interface] turns
    the first into exit status 1 and the second into exit status 2, but
    it has no handler for the third: with an unknown display mode the
    exception leaves [cli_interface] uncaught, nothing is printed by
    the program, and the status the interpreter then reports is the
    one of an unknown AI. *)
Theorem cli_interface_display_mode_uncaught :
  toy_cli_interface unknown_mode_args
  = ([NewAI "RandomAI"; NewAI "Human"; NewTimer "BasicTimer" [600%Q; 2%Q]],
     Uncaught (NonExistentMatch "hologram"))
  /\ toy_cli_interface unknown_white_args
     = ([Stderr (NonExistentAI "Deep Blue")], Exit 1)
  /\ toy_cli_interface unknown_black_args
     = ([NewAI "RandomAI"; Stderr (NonExistentAI "Deep Blue")], Exit 1)
  /\ toy_cli_interface unknown_timer_args
     = ([NewAI "RandomAI"; NewAI "Human";
         Stderr (NonExistentTimer "Sundial")], Exit 2)
  /\ exit_status (snd (toy_cli_interface unknown_mode_args))
     = exit_status (snd (toy_cli_interface unknown_white_args)).
Proof. repeat apply conj; vm_compute; reflexivity. Qed.

(** C2 fails as stated.  With the default [BasicTimer] and the default
    600 seconds and 2 seconds of increment, the timer that [main] hands
    to the match does not carry the configured budget. *)
Lemma BasicTimer_drops_configured_budget :
  ~ (forall mode margs,
       In (mode, margs) (matches_made string (fst (toy_main default_args))) ->
       seconds_left (base_timer_of string margs)
       = Finite (start_seconds default_args)
       /\ increment (base_timer_of string margs)
          = increment_seconds default_args).
Proof.
  intros H. rewrite toy_main_default in H.
  destruct (H "visual" _ (or_introl eq_refl)) as [E _].
  discriminate E.
Qed.

Lemma main_constructs_one_timer_witness :
  timers_made string (fst (toy_main default_args))
  = [("BasicTimer", [600%Q; 2%Q])]
  /\ base_timer_of string
       (Visual "RandomAI" "Human" (mkTimer 0 Unbounded 0) 1 800 600
          None None None 5 None)
     = mkTimer 0 Unbounded 0.
Proof.
  destruct (main_constructs_one_timer string ToyMatch string
              toy_AIs toy_timers toy_match_modes toy_play_match
              toy_record (fun j => j) toy_open_w
              default_args _ _ "visual" _ eq_refl (or_introl eq_refl))
    as (H1 & _ & _ & H4).
  split; [exact H1 | exact (H4 eq_refl)].
Defined.

Lemma main_returns_zero_witness :
  0%Z = 0%Z /\ played string (fst (toy_main default_args)) = true.
Proof.
  exact (main_returns_zero string ToyMatch string
           toy_AIs toy_timers toy_match_modes toy_play_match
           toy_record (fun j => j) toy_open_w
           default_args _ 0%Z eq_refl).
Defined.

Lemma main_record_write_witness :
  writes string (fst (toy_main default_args)) = []
  /\ writes string (fst (toy_main recorded_args))
     = [("game.json", "{winner: white}")].
Proof.
  split.
  - destruct (main_record_write string ToyMatch string
                toy_AIs toy_timers toy_match_modes toy_play_match
                toy_record (fun j => j) toy_open_w
                default_args _ _ eq_refl) as (H & _).
    exact (H eq_refl).
  - destruct (main_record_write string ToyMatch string
                toy_AIs toy_timers toy_match_modes toy_play_match
                toy_record (fun j => j) toy_open_w
                recorded_args _ _ eq_refl) as (_ & _ & H & _).
    destruct (H "game.json" 0%Z eq_refl eq_refl)
      as (tr0 & m & winner & m' & Hs & Hp & Hw).
    vm_compute in Hs. injection Hs as <- <-.
    vm_compute in Hp. injection Hp as <- <-.
    exact Hw.
Defined.

(** *** More runs on the concrete installation *)

Lemma main_calls_in_order_witness :
  exists margs content,
    fst (toy_main recorded_args)
    = [NewAI "RandomAI"; NewAI "Human";
       NewTimer "BasicTimer" [600%Q; 2%Q];
       NewMatch "text" margs; PlayMatch] ++ [WriteFile "game.json" content].
Proof.
  exact (main_calls_in_order string ToyMatch string
           toy_AIs toy_timers toy_match_modes toy_play_match
           toy_record (fun j => j) toy_open_w
           recorded_args _ 0%Z eq_refl).
Defined.

Lemma cli_first_unknown_name_witness :
  toy_cli_interface unknown_white_args
  = ([Stderr (NonExistentAI "Deep Blue")], Exit 1)
  /\ toy_cli_interface unknown_black_args
     = ([NewAI "RandomAI"; Stderr (NonExistentAI "Deep Blue")], Exit 1)
  /\ toy_cli_interface unknown_timer_args
     = ([NewAI "RandomAI"; NewAI "Human";
         Stderr (NonExistentTimer "Sundial")], Exit 2).
Proof.
  split; [|split].
  - destruct (cli_first_unknown_name string ToyMatch string
                toy_AIs toy_timers toy_match_modes toy_play_match
                toy_record (fun j => j) toy_open_w unknown_white_args)
      as (H & _).
    exact (H eq_refl).
  - destruct (cli_first_unknown_name string ToyMatch string
                toy_AIs toy_timers toy_match_modes toy_play_match
                toy_record (fun j => j) toy_open_w unknown_black_args)
      as (_ & H & _).
    exact (H (fun _ => Ok "RandomAI") "RandomAI" eq_refl eq_refl eq_refl).
  - destruct (cli_first_unknown_name string ToyMatch string
                toy_AIs toy_timers toy_match_modes toy_play_match
                toy_record (fun j => j) toy_open_w unknown_timer_args)
      as (_ & _ & H).
    exact (H (fun _ => Ok "RandomAI") "RandomAI"
             (fun _ => Ok "Human") "Human"
             eq_refl eq_refl eq_refl eq_refl eq_refl).
Defined.

(** An installation in which one registered AI cannot be constructed
    because a key is missing inside it. *)
Definition broken_AIs : gmap string (unit -> res string) :=
  <[ "Broken" := fun _ => Raise (KeyError "weights") ]> toy_AIs.

Definition broken_args : Args :=
  args_of "Broken" "Human" "visual" "BasicTimer" None.

Lemma constructor_KeyError_reported_as_unknown_witness :
  main string ToyMatch string broken_AIs toy_timers toy_match_modes
    toy_play_match toy_record (fun j => j) toy_open_w broken_args
  = ([NewAI "Broken"], Raise (NonExistentAI "Broken"))
  /\ cli_interface string ToyMatch string broken_AIs toy_timers
       toy_match_modes toy_play_match toy_record (fun j => j) toy_open_w
       broken_args
     = ([NewAI "Broken"; Stderr (NonExistentAI "Broken")], Exit 1).
Proof.
  exact (constructor_KeyError_reported_as_unknown string ToyMatch string
           broken_AIs toy_timers toy_match_modes toy_play_match
           toy_record (fun j => j) toy_open_w broken_args
           (fun _ => Raise (KeyError "weights")) "weights"
           eq_refl eq_refl).
Defined.

(** The text mode with another window, image directories and a GIF. *)
Definition text_args : Args :=
  args_of "RandomAI" "Human" "text" "BasicTimer" None.

Definition text_args_with_window : Args :=
  {| white := "RandomAI"; black := "Human"; display_mode := "text";
     timer := "BasicTimer"; start_seconds := 600; increment_seconds := 2;
     board_dir := Some "boards"; frame_dir := Some "frames";
     output_gif := Some "game.gif";
     width := 1024; height := 768; win_screen_time := 10;
     wins_required := 1; record_file := None;
     initial_board_state := None |}.

Lemma other_modes_ignore_window_options_witness :
  toy_main text_args_with_window = toy_main text_args.
Proof.
  apply (other_modes_ignore_window_options string ToyMatch string
           toy_AIs toy_timers toy_match_modes toy_play_match
           toy_record (fun j => j) toy_open_w
           text_args text_args_with_window);
    [discriminate | reflexivity ..].
Defined.

Definition refused_args : Args :=
  args_of "RandomAI" "Human" "text" "BasicTimer" (Some "/etc/record.json").

Lemma record_file_refused_witness :
  toy_cli_interface refused_args
  = ([NewAI "RandomAI"; NewAI "Human";
      NewTimer "BasicTimer" [600%Q; 2%Q];
      NewMatch "text"
        (Headless "RandomAI" "Human" (mkTimer 0 Unbounded 0) 1 None)]
     ++ [PlayMatch; Stderr (PermissionError "/etc/record.json")], Exit 4)
  /\ writes string (fst (toy_cli_interface refused_args)) = [].
Proof.
  exact (record_file_refused string ToyMatch string
           toy_AIs toy_timers toy_match_modes toy_play_match
           toy_record (fun j => j) toy_open_w
           refused_args _ _ _ "/etc/record.json" "/etc/record.json"
           eq_refl eq_refl eq_refl eq_refl).
Defined.

(** A match whose human player meets the end of standard input. *)
Definition toy_play_match_eof (m : ToyMatch) : res (bool * ToyMatch) :=
  Raise EOFError.

Lemma play_match_failure_leaves_no_record_witness :
  main string ToyMatch string toy_AIs toy_timers toy_match_modes
    toy_play_match_eof toy_record (fun j => j) toy_open_w recorded_args
  = ([NewAI "RandomAI"; NewAI "Human";
      NewTimer "BasicTimer" [600%Q; 2%Q];
      NewMatch "text"
        (Headless "RandomAI" "Human" (mkTimer 0 Unbounded 0) 1 None)]
     ++ [PlayMatch], Raise EOFError)
  /\ writes string
       (fst (main string ToyMatch string toy_AIs toy_timers
               toy_match_modes toy_play_match_eof toy_record
               (fun j => j) toy_open_w recorded_args)) = [].
Proof.
  exact (play_match_failure_leaves_no_record string ToyMatch string
           toy_AIs toy_timers toy_match_modes toy_play_match_eof
           toy_record (fun j => j) toy_open_w
           recorded_args _ _ EOFError eq_refl eq_refl).
Defined.

Lemma BasicTimer_seconds_have_no_effect_witness :
  snd (toy_main (with_seconds default_args 60 0)) = snd (toy_main default_args)
  /\ forget_timer_args string (fst (toy_main (with_seconds default_args 60 0)))
     = forget_timer_args string (fst (toy_main default_args)).
Proof.
  exact (BasicTimer_seconds_have_no_effect string ToyMatch string
           toy_AIs toy_timers toy_match_modes toy_play_match
           toy_record (fun j => j) toy_open_w
           default_args 60 0 eq_refl).
Defined.

(** A stand-in for [argparse] on a few shapes of command line: the two
    players alone, the two players and a timer, the help, and anything
    else as a usage error. *)
Definition toy_parse_arguments (argv : list string) : Parsed :=
  match argv with
  | [w; b] => Namespace (args_of w b "visual" "BasicTimer" None)
  | [w; b; "--timer"; t] => Namespace (args_of w b "visual" t None)
  | ["--help"] => ArgparseExit 0
  | _ => ArgparseExit 2
  end.

Definition toy_cli_interface_on : list string -> list (Event string) * Process :=
  cli_interface_on string ToyMatch string toy_AIs toy_timers
    toy_match_modes toy_play_match toy_record (fun j => j) toy_open_w
    toy_parse_arguments.

(** Status 2 has two causes: an unknown timer, and a usage error. *)
Example toy_status_2_twice :
  snd (toy_cli_interface_on ["RandomAI"; "Human"; "--timer"; "Sundial"])
  = Exit 2
  /\ snd (toy_cli_interface_on ["RandomAI"]) = Exit 2.
Proof. split; vm_compute; reflexivity. Qed.

Lemma cli_interface_on_exit_statuses_witness :
  (toy_parse_arguments ["RandomAI"; "Human"; "--timer"; "Sundial"]
   = ArgparseExit 2
   /\ fst (toy_cli_interface_on ["RandomAI"; "Human"; "--timer"; "Sundial"])
      = [])
  \/ exists a,
       toy_parse_arguments ["RandomAI"; "Human"; "--timer"; "Sundial"]
       = Namespace a
       /\ ((2%Z = 0%Z
            /\ toy_main a
               = (fst (toy_cli_interface_on
                         ["RandomAI"; "Human"; "--timer"; "Sundial"]),
                  Ok 0%Z))
           \/ (2%Z = 1%Z /\ exists name,
                 snd (toy_main a) = Raise (NonExistentAI name))
           \/ (2%Z = 2%Z /\ exists name,
                 snd (toy_main a) = Raise (NonExistentTimer name))
           \/ (2%Z = 4%Z /\ exists msg,
                 snd (toy_main a) = Raise (PermissionError msg))).
Proof.
  exact (cli_interface_on_exit_statuses string ToyMatch string
           toy_AIs toy_timers toy_match_modes toy_play_match
           toy_record (fun j => j) toy_open_w toy_parse_arguments
           ["RandomAI"; "Human"; "--timer"; "Sundial"] _ 2%Z eq_refl).
Defined.

End Cli.

(** ** The match: games repeated up to a number of wins *)

Module Match.

Local Open Scope Z_scope.

Inductive Color : Type := White | Black.


(** How one game ends for the tallies: a side wins it (by the rules, by
    the opponent's illegal move or on time), or it is drawn. *)
Inductive Outcome : Type :=
| Won (c : Color)
| Drawn.

(** The running win tallies of the two sides. *)
Record Tally : Type := mkTally {
  white_wins : Z;
  black_wins : Z
}.

Definition wins (c : Color) (t : Tally) : Z :=
  match c with White => white_wins t | Black => black_wins t end.

Section Engine.

Variable Board : Type.
(** the configured starting position *)
Variable initial_board : Board.
(** the win-count threshold *)
Variable wins_required : Z.

(** Between games the match either waits to play the next game on a
    board, or it is over with an overall winner. *)
Inductive State : Type :=
| NextGame (board : Board) (tally : Tally)
| MatchOver (winner : Color) (tally : Tally).


(** Modelled from the spec: step 8 of the per-move algorithm of the
    match engine ([chesster/match], not among the source files).  The
    winning side's tally is incremented; a draw changes no tally. *)
Definition credit (o : Outcome) (t : Tally) : Tally :=
  match o with
  | Won White => mkTally (white_wins t + 1) (black_wins t)
  | Won Black => mkTally (white_wins t) (black_wins t + 1)
  | Drawn => t
  end.

(** Modelled from the spec: whether the win-count threshold is met by
    either side, and by which. *)
Definition threshold_met (t : Tally) : option Color :=
  if wins_required <=? white_wins t then Some White
  else if wins_required <=? black_wins t then Some Black
  else None.

(** Modelled from the spec: steps 8 and 9, taken when a game has
    ended.  If the threshold is met the match ends and that side is
    the overall winner, otherwise the next game gets a fresh initial
    board.  A match that is over starts no game. *)
Definition game_over (o : Outcome) (s : State) : State :=
  match s with
  | MatchOver w t => MatchOver w t
  | NextGame _ t =>
      let t' := credit o t in
      match threshold_met t' with
      | Some w => MatchOver w t'
      | None => NextGame initial_board t'
      end
  end.

(** Modelled from the spec: the outer loop, which repeats single
    games until one side's win count reaches the threshold.  The
    games are given by their outcomes, in order; the result is the
    state reached and the outcomes of the games that were not
    played. *)
Fixpoint games (s : State) (outcomes : list Outcome)
  : State * list Outcome :=
  match s, outcomes with
  | MatchOver _ _, _ => (s, outcomes)
  | NextGame _ _, [] => (s, [])
  | NextGame _ _, o :: rest => games (game_over o s) rest
  end.

(** Modelled from the spec: a match starts on the initial board with
    both tallies at zero. *)
Definition play_match (outcomes : list Outcome) : State * list Outcome :=
  games (NextGame initial_board (mkTally 0 0)) outcomes.



(** A threshold is a number of wins: at least one. *)
Hypothesis threshold_positive : 1 <= wins_required.









End Engine.

Arguments NextGame {Board}.
Arguments MatchOver {Board}.

(** Two wins needed: white wins, a draw, black wins, white wins again
    and the match is over; the fifth game is not played. *)
Example play_match_two_wins :
  play_match string "startpos" 2
    [Won White; Drawn; Won Black; Won White; Won Black]
  = (MatchOver White (mkTally 2 1), [Won Black]).
Proof. reflexivity. Qed.



End Match.
